(** * The configurable finite-state-machine adapter

    A shallow embedding of
    [projects/fe-behavior/src/lib/state/finite-state-machine.ts]: the
    class [FiniteStateMachine], which collects states, transitions and
    callbacks, hands them to an external state-machine engine at
    [start()], and afterwards drives that engine through [go(to)].

    Modelling conventions.
    - A function reference (a callback) is a natural number; two
      references are the same function exactly when the numbers agree.
    - The two configuration objects are enumerated by [for ... in], so
      their own properties are kept as property lists in creation order.
      Both are object literals: a read [o[k]] also finds the members that
      every object literal inherits from [Object.prototype].
    - Names are strings of code units below 256 (Latin-1).
    - [_handlers] is looked up by key only: a finite map.
    - The engine is an interface; every call the adapter makes on it is
      recorded, in order, next to the result of the method.
    - Callbacks are opaque: running one is an observable event, and a
      callback is taken to return normally. *)

From Stdlib Require Import String Ascii List Bool NArith Lia.
From stdpp Require Import base option list gmap strings.

Local Open Scope string_scope.

(** ** Strings *)

Module JsString.

(** [String.prototype.toUpperCase] on one code unit below 256: the
    letters a to z, and the Latin-1 letters 224 to 254 other than the
    division sign 247, move down by 32; every other code unit is kept.
    Three code units have an upper-case form that is not one code unit
    below 256 and are outside the model: 181 (micro sign), 223 (sharp s)
    and 255 (y with diaeresis). *)
Definition toUpperCase (c : ascii) : ascii :=
  let n := nat_of_ascii c in
  if ((97 <=? n)%nat && (n <=? 122)%nat)
     || ((224 <=? n)%nat && (n <=? 254)%nat && negb (n =? 247)%nat)
  then ascii_of_nat (n - 32)
  else c.

(** [value.charAt(0).toUpperCase() + value.slice(1)] *)
Definition captialize (value : string) : string :=
  match value with
  | EmptyString => EmptyString
  | String c rest => String (toUpperCase c) rest
  end.

(** Truthiness of a string value: only the empty string is falsy. *)
Definition truthy (s : string) : bool :=
  match s with EmptyString => false | String _ _ => true end.

Definition transitionKeyFormat : string := "{from}2{to}".

(** Modelled from the spec: [replace] of [@polpware/fe-utilities] is
    imported, not defined, in this repository.  It is only ever applied
    to [transitionKeyFormat]; the spec gives the resulting key as
    "from2to": the source name, the character 2, the target name. *)
Definition replaceStr (format : string) (from to : string) : string :=
  from +:+ "2" +:+ to.

End JsString.

(** ** Objects used as dictionaries *)

Module JsObject.

Section Obj.
Context {V : Type}.

(** Own properties, in creation order. *)
Definition Obj : Type := list (string * V).

(** [o[k]] *)
Fixpoint get (o : Obj) (k : string) : option V :=
  match o with
  | [] => None
  | (k', v) :: rest => if String.eqb k' k then Some v else get rest k
  end.

(** [o[k] = v]: an existing property keeps its place, a new one goes
    last. *)
Fixpoint set (o : Obj) (k : string) (v : V) : Obj :=
  match o with
  | [] => [(k, v)]
  | (k', v') :: rest =>
      if String.eqb k' k then (k, v) :: rest else (k', v') :: set rest k v
  end.

(** [o.hasOwnProperty(k)] *)
Definition has (o : Obj) (k : string) : bool :=
  match get o k with Some _ => true | None => false end.

(** The members that an object literal inherits from [Object.prototype]:
    eleven functions and the accessor [__proto__], which reads as the
    prototype object. *)
Definition inherited (k : string) : bool :=
  List.existsb (String.eqb k)
    ["constructor"; "hasOwnProperty"; "isPrototypeOf"; "propertyIsEnumerable";
     "toLocaleString"; "toString"; "valueOf"; "__proto__";
     "__defineGetter__"; "__defineSetter__";
     "__lookupGetter__"; "__lookupSetter__"].

(** [if (o[k])] for an object literal whose own properties are objects:
    an own property and an inherited member are both truthy, anything
    else reads as [undefined]. *)
Definition truthy_at (o : Obj) (k : string) : bool :=
  has o k || inherited k.

Definition is_digit (c : ascii) : bool :=
  let n := nat_of_ascii c in (48 <=? n)%nat && (n <=? 57)%nat.

Fixpoint digits_value (acc : N) (s : string) : option N :=
  match s with
  | EmptyString => Some acc
  | String c rest =>
      if is_digit c
      then digits_value (10 * acc + N.of_nat (nat_of_ascii c - 48))%N rest
      else None
  end.

(** A property name is an array index when it is the canonical decimal
    form of an integer below 2^32 - 1. *)
Definition array_index (k : string) : option N :=
  match k with
  | EmptyString => None
  | String "0" EmptyString => Some 0%N
  | String "0" _ => None
  | _ =>
      match digits_value 0%N k with
      | Some n => if (n <? 4294967295)%N then Some n else None
      | None => None
      end
  end.

Fixpoint insert_by_index (i : N) (kv : string * V)
    (sorted : list (N * (string * V))) : list (N * (string * V)) :=
  match sorted with
  | [] => [(i, kv)]
  | (j, kv') :: rest =>
      if (i <? j)%N then (i, kv) :: sorted
      else (j, kv') :: insert_by_index i kv rest
  end.

Fixpoint indexed (o : Obj) : list (N * (string * V)) :=
  match o with
  | [] => []
  | (k, v) :: rest =>
      match array_index k with
      | Some i => insert_by_index i (k, v) (indexed rest)
      | None => indexed rest
      end
  end.

Definition named (o : Obj) : Obj :=
  List.filter (fun kv => match array_index (fst kv) with
                         | Some _ => false | None => true end) o.

(** The order in which [for (const k in o)] visits the own properties:
    array indices in ascending order, then the other names in creation
    order.  ([o.hasOwnProperty(k)] holds for each of them.) *)
Definition for_in (o : Obj) : Obj :=
  (List.map snd (indexed o) ++ named o)%list.

End Obj.

Arguments Obj : clear implicits.

End JsObject.

(** ** Arrays of function references (underscore helpers) *)

Module Underscore.

Section Arrays.
Context {A : Type} `{EqDecision A}.

Fixpoint index_from (i : nat) (array : list A) (item : A) : option nat :=
  match array with
  | [] => None
  | x :: rest => if decide (x = item) then Some i
                 else index_from (S i) rest item
  end.

(** Modelled from the spec: [_.indexOf] of underscore is imported, not
    defined, in this repository.  The spec has handlers "deduplicated
    by reference identity": the position of the first element that is
    the same reference, [None] for -1.  An absent array ([undefined])
    has no length and yields -1 as well. *)
Definition indexOf (array : option (list A)) (item : A) : option nat :=
  match array with
  | None => None
  | Some l => index_from 0 l item
  end.

(** Modelled from the spec: [_.without] of underscore is imported, not
    defined, in this repository.  The spec has it "remove a callback
    by reference": a fresh array with every element but the given
    reference, in order; the argument is left as it was.  An absent
    array gives the empty array. *)
Definition without (array : option (list A)) (item : A) : list A :=
  match array with
  | None => []
  | Some l => List.filter (fun x => if decide (x = item) then false else true) l
  end.

End Arrays.

End Underscore.

(** ** Data model *)

Module Fsm.

Import JsString.
Import JsObject (Obj).

(** [(ILifeCycleEvent) => void], by reference. *)
Definition MethodCallbackType : Type := nat.

(** [(name, from, to) => void], by reference. *)
Definition ErrorHandlerType : Type := nat.

Record IStateSpecification : Type := {
  onEnterCallback : option MethodCallbackType;
  onLeaveCallback : option MethodCallbackType
}.

Record ITransitionSpecification : Type := {
  from : string;
  to : string;
  onBeforeCallback : option MethodCallbackType;
  onAfterCallback : option MethodCallbackType
}.

(** An element of the [transitions] that [start()] passes to the engine's
    constructor: [{ name, from, to }]. *)
Record Transition : Type := {
  t_name : string;
  t_from : string;
  t_to : string
}.

(** A value stored in [methods]: a callback slot of a specification as
    it was read (a function reference, or [undefined]), or the closure
    [buildHandlerInClosure(this._handlers, key)]. *)
Inductive Method : Type :=
| Reference (f : option MethodCallbackType)
| HandlerClosure (key : string).

(** [this._errorHandler || defaultErrorHandler] *)
Inductive InvalidTransitionHandler : Type :=
| defaultErrorHandler
| UserErrorHandler (fn : ErrorHandlerType).

(** The argument of [new StateMachine(...)]. *)
Record Options : Type := {
  init : string;
  transitions : list Transition;
  methods : gmap string Method;
  onInvalidTransition : InvalidTransitionHandler
}.

(** The engine, as the adapter uses it ([IUnderlyImpl], the constructor
    [StateMachine], and the transition methods read by name).
    [impl_member e name] is [e[name]]: [None] when the engine has no such
    member, otherwise the function that, called on the engine, leaves it
    in the state given. *)
Class UnderlyImpl (E : Type) : Type := {
  impl_new : Options -> E;
  impl_state : E -> string;
  impl_is : E -> string -> bool;
  impl_cannot : E -> string -> bool;
  impl_member : E -> string -> option (E -> E)
}.

(** The calls the adapter makes on the engine. *)
Inductive EngineCall : Type :=
| New (options : Options)
| Is (stateName : string)
| State
| Cannot (transitionName : string)
| Member (transitionName : string)
| Call (transitionName : string).

(** What a method may throw: [new Error(message)], or the runtime's
    [TypeError] for reading [property] of [undefined] or [null]. *)
Inductive Exn : Type :=
| Error (message : string)
| TypeError (property : string).

(** What a chainable method returns: [this], or the global [self]. *)
Inductive Returned : Type := This | GlobalSelf.

Section Adapter.
Context {E : Type} `{UnderlyImpl E}.

Record FiniteStateMachine : Type := {
  _impl : option E;
  _initState : option string;
  _errorHandler : option ErrorHandlerType;
  _stateConfiguration : Obj IStateSpecification;
  _transitionConfiguration : Obj ITransitionSpecification;
  _handlers : gmap string (list MethodCallbackType)
}.

(** [constructor()] *)
Definition ctor : FiniteStateMachine := {|
  _impl := None;
  _initState := None;
  _errorHandler := None;
  _stateConfiguration := [];
  _transitionConfiguration := [];
  _handlers := ∅
|}.

(** *** Methods as state transformers

    A method runs on the adapter [this]; it leaves the adapter in
    [after], has made [calls] on the engine, and completes by throwing
    ([inl]) or returning ([inr]). *)
Record Run (A : Type) : Type := {
  calls : list EngineCall;
  after : FiniteStateMachine;
  completion : Exn + A
}.
Arguments calls {A}.
Arguments after {A}.
Arguments completion {A}.

Definition M (A : Type) : Type := FiniteStateMachine -> Run A.

Definition ret {A} (x : A) : M A :=
  fun this => {| calls := []; after := this; completion := inr x |}.

Definition throw {A} (e : Exn) : M A :=
  fun this => {| calls := []; after := this; completion := inl e |}.

Definition bind {A B} (m : M A) (k : A -> M B) : M B :=
  fun this =>
    let r := m this in
    match completion r with
    | inl e => {| calls := calls r; after := after r; completion := inl e |}
    | inr x =>
        let r' := k x (after r) in
        {| calls := (calls r ++ calls r')%list;
           after := after r';
           completion := completion r' |}
    end.

Definition read {A} (field : FiniteStateMachine -> A) : M A :=
  fun this => ret (field this) this.

Definition write (update : FiniteStateMachine -> FiniteStateMachine) : M unit :=
  fun this => {| calls := []; after := update this; completion := inr tt |}.

End Adapter.

Arguments FiniteStateMachine : clear implicits.
Arguments Run : clear implicits.
Arguments M : clear implicits.
Arguments calls {E A}.
Arguments after {E A}.
Arguments completion {E A}.

Notation "'do' x <- m ; k" := (bind m (fun x => k))
  (at level 10, x name, m at level 100, k at level 200).

(** *** Field assignments *)

Section Fields.
Context {E : Type}.
Implicit Type this : FiniteStateMachine E.

Definition set_impl (v : option E) this : FiniteStateMachine E :=
  {| _impl := v;
     _initState := _initState this;
     _errorHandler := _errorHandler this;
     _stateConfiguration := _stateConfiguration this;
     _transitionConfiguration := _transitionConfiguration this;
     _handlers := _handlers this |}.

Definition set_initState (v : option string) this : FiniteStateMachine E :=
  {| _impl := _impl this;
     _initState := v;
     _errorHandler := _errorHandler this;
     _stateConfiguration := _stateConfiguration this;
     _transitionConfiguration := _transitionConfiguration this;
     _handlers := _handlers this |}.

Definition set_errorHandler (v : option ErrorHandlerType) this
    : FiniteStateMachine E :=
  {| _impl := _impl this;
     _initState := _initState this;
     _errorHandler := v;
     _stateConfiguration := _stateConfiguration this;
     _transitionConfiguration := _transitionConfiguration this;
     _handlers := _handlers this |}.

Definition set_stateConfiguration (v : Obj IStateSpecification) this
    : FiniteStateMachine E :=
  {| _impl := _impl this;
     _initState := _initState this;
     _errorHandler := _errorHandler this;
     _stateConfiguration := v;
     _transitionConfiguration := _transitionConfiguration this;
     _handlers := _handlers this |}.

Definition set_transitionConfiguration (v : Obj ITransitionSpecification) this
    : FiniteStateMachine E :=
  {| _impl := _impl this;
     _initState := _initState this;
     _errorHandler := _errorHandler this;
     _stateConfiguration := _stateConfiguration this;
     _transitionConfiguration := v;
     _handlers := _handlers this |}.

(** [this._handlers[key] = v] *)
Definition set_handler (key : string) (v : list MethodCallbackType) this
    : FiniteStateMachine E :=
  {| _impl := _impl this;
     _initState := _initState this;
     _errorHandler := _errorHandler this;
     _stateConfiguration := _stateConfiguration this;
     _transitionConfiguration := _transitionConfiguration this;
     _handlers := <[key := v]> (_handlers this) |}.

End Fields.

(** *** The handler fan-out *)

Section FanOut.
Context {Arguments : Type}.

(** [func.apply(null, arguments)] *)
Inductive Invocation : Type :=
| Apply (func : MethodCallbackType) (arguments : Arguments).

(** [for (let i = 0; i < ourHandlers.length; i++)], with [remaining]
    the number of indices still to visit. *)
Fixpoint fan_out (ourHandlers : list MethodCallbackType)
    (arguments : Arguments) (remaining i : nat) : list Invocation :=
  match remaining with
  | O => []
  | S remaining' =>
      match ourHandlers !! i with
      | Some func =>
          Apply func arguments :: fan_out ourHandlers arguments remaining' (S i)
      | None => []
      end
  end.

(** [buildHandlerInClosure(context, key)].  The closure holds the
    object [context] itself and reads [context[key]] when it runs, so
    it is applied to the content [context] has at that moment; the
    result is the sequence of callback invocations it makes. *)
Definition buildHandlerInClosure
    (context : gmap string (list MethodCallbackType)) (key : string)
    (arguments : Arguments) : list Invocation :=
  match context !! key with
  | None => []
  | Some ourHandlers =>
      fan_out ourHandlers arguments (length ourHandlers) 0
  end.

End FanOut.

Arguments Invocation : clear implicits.

(** What the engine runs when it calls the method stored as
    [HandlerClosure key] on the adapter [this]. *)
Definition run_closure {E Arguments} (this : FiniteStateMachine E)
    (key : string) (arguments : Arguments) : list (Invocation Arguments) :=
  buildHandlerInClosure (_handlers this) key arguments.

(** *** The methods of the class *)

Section Methods.
Context {E : Type} `{UnderlyImpl E}.

(** The value of a string field when it is truthy ([null] and the
    empty string are falsy). *)
Definition when_truthy (v : option string) : option string :=
  match v with
  | Some s => if truthy s then Some s else None
  | None => None
  end.

Definition ensureConfigureStage : M E unit :=
  do impl <- read _impl;
  match impl with
  | Some _ => throw (Error "State machine has started.")
  | None => ret tt
  end.

Definition ensureRunningStage : M E unit :=
  do impl <- read _impl;
  match impl with
  | None => throw (Error "State machine has not yet started.")
  | Some _ => ret tt
  end.

Definition addState (name : string)
    (onEnterCallback onLeaveCallback : option MethodCallbackType)
    : M E Returned :=
  do _ <- ensureConfigureStage;
  do stateConf <- read _stateConfiguration;
  if JsObject.truthy_at stateConf name
  then throw (Error ("Redefined state: " +:+ name))
  else
    do _ <- write (set_stateConfiguration
                     (JsObject.set stateConf name
                        {| Fsm.onEnterCallback := onEnterCallback;
                           Fsm.onLeaveCallback := onLeaveCallback |}));
    ret This.

Definition setInitState (name : string) : M E Returned :=
  do _ <- ensureConfigureStage;
  do initState <- read _initState;
  match when_truthy initState with
  | Some defined => throw (Error ("Redefined init state: " +:+ defined))
  | None =>
      do _ <- write (set_initState (Some name));
      ret This
  end.

Definition addTransition (from to : string)
    (onAfterCallback onBeforeCallback : option MethodCallbackType)
    : M E Returned :=
  do _ <- ensureConfigureStage;
  do stateConf <- read _stateConfiguration;
  do transitionConf <- read _transitionConfiguration;
  if negb (JsObject.truthy_at stateConf from)
  then throw (Error ("Undefined source state: " +:+ from))
  else if negb (JsObject.truthy_at stateConf to)
  then throw (Error ("Undefined target state: " +:+ to))
  else
    let key := replaceStr transitionKeyFormat from to in
    if JsObject.truthy_at transitionConf key
    then throw (Error ("Redefined transition: " +:+ from +:+ " -> " +:+ to))
    else
      do _ <- write (set_transitionConfiguration
                       (JsObject.set transitionConf key
                          {| Fsm.from := from; Fsm.to := to;
                             Fsm.onAfterCallback := onAfterCallback;
                             Fsm.onBeforeCallback := onBeforeCallback |}));
      ret This.

(** One round of the first loop of [start()]. *)
Definition collect_transition
    (acc : list Transition * gmap string Method)
    (property : string * ITransitionSpecification)
    : list Transition * gmap string Method :=
  let (transitions, methods) := acc in
  let (k1, elem1) := property in
  let transitions :=
    (transitions ++ [{| t_name := k1; t_from := from elem1; t_to := to elem1 |}])%list in
  let methods :=
    match onAfterCallback elem1 with
    | Some _ =>
        <["onAfter" +:+ captialize k1 := Reference (onAfterCallback elem1)]> methods
    | None => methods
    end in
  let methods :=
    match onBeforeCallback elem1 with
    | Some _ =>
        <["onBefore" +:+ captialize k1 := Reference (onAfterCallback elem1)]> methods
    | None => methods
    end in
  (transitions, methods).

(** One round of the second loop of [start()]. *)
Definition collect_state (methods : gmap string Method)
    (property : string * IStateSpecification) : gmap string Method :=
  let (k2, elem2) := property in
  let methods :=
    match onEnterCallback elem2 with
    | Some _ =>
        <["onEnter" +:+ captialize k2 := Reference (onEnterCallback elem2)]> methods
    | None => methods
    end in
  match onLeaveCallback elem2 with
  | Some _ =>
      <["onLeave" +:+ captialize k2 := Reference (onLeaveCallback elem2)]> methods
  | None => methods
  end.

(** The argument of [new StateMachine(...)] for an adapter whose init
    state is [initState]. *)
Definition engine_options (this : FiniteStateMachine E) (initState : string)
    : Options :=
  let stateConf := _stateConfiguration this in
  let transitionConf := _transitionConfiguration this in
  let (transitions, methods) :=
    fold_left collect_transition (JsObject.for_in transitionConf) ([], ∅) in
  let methods := fold_left collect_state (JsObject.for_in stateConf) methods in
  let methods := <["onEnterState" := HandlerClosure "onEnterState"]> methods in
  let methods := <["onLeaveState" := HandlerClosure "onLeaveState"]> methods in
  {| init := initState;
     transitions := transitions;
     methods := methods;
     onInvalidTransition :=
       match _errorHandler this with
       | Some fn => UserErrorHandler fn
       | None => defaultErrorHandler
       end |}.

(** [new StateMachine(options)] *)
Definition construct (options : Options) : M E E :=
  fun this => {| calls := [New options]; after := this;
                 completion := inr (impl_new options) |}.

Definition start : M E Returned :=
  do _ <- ensureConfigureStage;
  do initState <- read _initState;
  match when_truthy initState with
  | None => throw (Error "Init state has not been defined.")
  | Some initState =>
      do options <- read (fun this => engine_options this initState);
      do _ <- write (set_handler "onEnterState" []);
      do _ <- write (set_handler "onLeaveState" []);
      do impl <- construct options;
      do _ <- write (set_impl (Some impl));
      ret This
  end.

(** [ourHandlers.push(handler)] for the array read from
    [this._handlers[key]]. *)
Definition push (key : string) (ourHandlers : option (list MethodCallbackType))
    (handler : MethodCallbackType) : M E unit :=
  match ourHandlers with
  | None => throw (TypeError "push")
  | Some array => write (set_handler key (array ++ [handler])%list)
  end.

Definition onEnterState (handler : MethodCallbackType) : M E Returned :=
  do ourHandlers <- read (fun this => _handlers this !! "onEnterState");
  match Underscore.indexOf ourHandlers handler with
  | Some _ => throw (Error "Re-registering a hander!")
  | None =>
      do _ <- push "onEnterState" ourHandlers handler;
      ret This
  end.

Definition onExitState (handler : MethodCallbackType) : M E Returned :=
  do ourHandlers <- read (fun this => _handlers this !! "onLeaveState");
  match Underscore.indexOf ourHandlers handler with
  | Some _ => throw (Error "Registering a hander!")
  | None =>
      do _ <- push "onLeaveState" ourHandlers handler;
      ret This
  end.

Definition offEnterState (handler : MethodCallbackType) : M E Returned :=
  do ourHandlers <- read (fun this => _handlers this !! "onEnterState");
  do _ <- write (set_handler "onenterstate"
                   (Underscore.without ourHandlers handler));
  ret This.

Definition offExitState (handler : MethodCallbackType) : M E Returned :=
  do ourHandlers <- read (fun this => _handlers this !! "onLeaveState");
  do _ <- write (set_handler "onexitstate"
                   (Underscore.without ourHandlers handler));
  ret This.

(** A read-only call [this._impl.member(...)]. *)
Definition ask {A} (call : EngineCall) (member : string) (answer : E -> A)
    : M E A :=
  fun this =>
    match _impl this with
    | None => throw (TypeError member) this
    | Some impl =>
        {| calls := [call]; after := this; completion := inr (answer impl) |}
    end.

(** [func.call(this._impl)] for [func] read from
    [this._impl[transitionName]]. *)
Definition call_member (transitionName : string) (func : option (E -> E))
    : M E unit :=
  fun this =>
    match func, _impl this with
    | Some f, Some impl =>
        {| calls := [Call transitionName];
           after := set_impl (Some (f impl)) this;
           completion := inr tt |}
    | _, _ => throw (TypeError "call") this
    end.

Definition go (to : string) : M E Returned :=
  do _ <- ensureRunningStage;
  do stateConf <- read _stateConfiguration;
  if negb (JsObject.truthy_at stateConf to)
  then throw (Error ("Go to undefined state: " +:+ to))
  else
    do already <- ask (Is to) "is" (fun impl => impl_is impl to);
    if (already : bool) then ret This
    else
      do currentState <- ask State "state" impl_state;
      let transitionName := replaceStr transitionKeyFormat currentState to in
      do forbidden <- ask (Cannot transitionName) "cannot"
                        (fun impl => impl_cannot impl transitionName);
      if (forbidden : bool)
      then throw (Error ("Transition is not allowed: "
                           +:+ currentState +:+ " -> " +:+ to))
      else
        do func <- ask (Member transitionName) transitionName
                     (fun impl => impl_member impl transitionName);
        do _ <- call_member transitionName func;
        ret GlobalSelf.

Definition addErrorHandler (fn : ErrorHandlerType) : M E Returned :=
  do _ <- ensureConfigureStage;
  do _ <- write (set_errorHandler (Some fn));
  ret This.

Definition current : M E string :=
  do _ <- ensureRunningStage;
  ask State "state" impl_state.

End Methods.

(** *** Adapters that a client can obtain *)

(** A call of a public method. *)
Inductive Request : Type :=
| AddState (name : string) (onEnterCallback onLeaveCallback : option MethodCallbackType)
| SetInitState (name : string)
| AddTransition (from to : string)
    (onAfterCallback onBeforeCallback : option MethodCallbackType)
| Start
| OnEnterState (handler : MethodCallbackType)
| OnExitState (handler : MethodCallbackType)
| OffEnterState (handler : MethodCallbackType)
| OffExitState (handler : MethodCallbackType)
| Go (to : string)
| AddErrorHandler (fn : ErrorHandlerType)
| Current.

Section Clients.
Context {E : Type} `{UnderlyImpl E}.

(** The adapter after the call, whether it returned or threw. *)
Definition serve (request : Request) (this : FiniteStateMachine E)
    : FiniteStateMachine E :=
  match request with
  | AddState name onEnter onLeave => after (addState name onEnter onLeave this)
  | SetInitState name => after (setInitState name this)
  | AddTransition from to onAfter onBefore =>
      after (addTransition from to onAfter onBefore this)
  | Start => after (start this)
  | OnEnterState handler => after (onEnterState handler this)
  | OnExitState handler => after (onExitState handler this)
  | OffEnterState handler => after (offEnterState handler this)
  | OffExitState handler => after (offExitState handler this)
  | Go to => after (go to this)
  | AddErrorHandler fn => after (addErrorHandler fn this)
  | Current => after (current this)
  end.

(** [new FiniteStateMachine()] followed by calls of public methods. *)
Inductive reachable : FiniteStateMachine E -> Prop :=
| reachable_ctor : reachable ctor
| reachable_serve request this :
    reachable this -> reachable (serve request this).

Definition script (requests : list Request) : FiniteStateMachine E :=
  fold_left (fun this request => serve request this) requests ctor.

(** The two lists that the methods read. *)
Definition enter_list (this : FiniteStateMachine E) :=
  _handlers this !! "onEnterState".
Definition leave_list (this : FiniteStateMachine E) :=
  _handlers this !! "onLeaveState".

Definition no_duplicates (array : option (list MethodCallbackType)) : Prop :=
  match array with Some l => NoDup l | None => True end.

(** The stage invariant: the two lists exist exactly when the engine
    does, and hold no reference twice. *)
Record stage_invariant (this : FiniteStateMachine E) : Prop := {
  enter_exists : is_Some (enter_list this) <-> is_Some (_impl this);
  leave_exists : is_Some (leave_list this) <-> is_Some (_impl this);
  enter_nodup : no_duplicates (enter_list this);
  leave_nodup : no_duplicates (leave_list this)
}.

(** What the adapter expects of the engine's transition methods: a
    transition that is not forbidden has a method under its own name. *)
Definition methods_keyed_by_name : Prop :=
  forall (impl : E) (transitionName : string),
    impl_cannot impl transitionName = false ->
    is_Some (impl_member impl transitionName).

(** The key of the transition from the engine's current state. *)
Definition key_from_current (impl : E) (to : string) : string :=
  JsString.replaceStr JsString.transitionKeyFormat (impl_state impl) to.



End Clients.

Arguments methods_keyed_by_name E {_}.

End Fsm.

(** ** A reference engine *)

Module ReferenceEngine.

Import Fsm.

Record Machine : Type := {
  m_state : string;
  m_options : Options
}.

Definition named (transitionName : string) (t : Transition) : bool :=
  String.eqb (t_name t) transitionName.

(** The transition of that name that leaves the current state. *)
Definition seek (m : Machine) (transitionName : string) : option Transition :=
  List.find (fun t => named transitionName t && String.eqb (t_from t) (m_state m))
    (transitions (m_options m)).

(** Running a transition method: a transition that is not possible from
    the current state goes to the invalid-transition handler and leaves
    the state as it is. *)
Definition fire (transitionName : string) (m : Machine) : Machine :=
  match seek m transitionName with
  | Some t => {| m_state := t_to t; m_options := m_options m |}
  | None => m
  end.

(** Modelled from the spec: the engine is an external library
    ([dependencies['statemachine']]), which this repository only calls.
    The spec lists what it exposes: construction from initial state,
    transition list, named-method map and invalid-transition handler; a
    current-state property; an is-current-state predicate; a
    transition-forbidden predicate; and callable transition methods keyed
    by transition name. *)
#[export] Instance reference : UnderlyImpl Machine := {|
  impl_new options := {| m_state := init options; m_options := options |};
  impl_state := m_state;
  impl_is m stateName := String.eqb (m_state m) stateName;
  impl_cannot m transitionName :=
    match seek m transitionName with Some _ => false | None => true end;
  impl_member m transitionName :=
    if List.existsb (named transitionName) (transitions (m_options m))
    then Some (fire transitionName)
    else None
|}.

(** The end-to-end scenario of the spec: states n1 and n2, a transition
    from n1 to n2 with callbacks, init state n1, started. *)
Definition configured (onAfter onBefore : option MethodCallbackType)
    : list Request :=
  [AddState "n1" None None; AddState "n2" None None;
   AddTransition "n1" "n2" onAfter onBefore; SetInitState "n1"].

Definition ready : FiniteStateMachine Machine :=
  script (configured (Some 1) (Some 2)).

Definition started : FiniteStateMachine Machine :=
  script (configured (Some 1) (Some 2) ++ [Start])%list.

(** The engine of [started], and that engine after the transition. *)
Definition started_engine : Machine := impl_new (engine_options ready "n1").
Definition moved_engine : Machine := fire "n12n2" started_engine.

(** [started] after [go('n2')]. *)
Definition moved : FiniteStateMachine Machine :=
  script (configured (Some 1) (Some 2) ++ [Start; Go "n2"])%list.


(** An adapter without any declared state, started on the init state
    constructor, and its engine. *)
Definition unconfigured : FiniteStateMachine Machine :=
  script [SetInitState "constructor"; Start].
Definition unconfigured_engine : Machine :=
  impl_new (engine_options (script [SetInitState "constructor"]) "constructor").

(** [started] with two enter-state handlers registered. *)
Definition listening : FiniteStateMachine Machine :=
  script (configured (Some 1) (Some 2)
            ++ [Start; OnEnterState 7; OnEnterState 8])%list.

End ReferenceEngine.

(** ** Proof steps shared by the properties *)

Module Steps.

Import Fsm.

(** Unfolds a method down to the fields it tests. *)
Ltac run :=
  cbv beta iota zeta delta
    [serve addState setInitState addTransition start onEnterState onExitState
     offEnterState offExitState go addErrorHandler current
     ensureConfigureStage ensureRunningStage push ask call_member construct
     bind read write ret throw calls after completion];
  cbn beta iota.

(** Reads the parts of a run that is given in full. *)
Ltac project := cbn [calls after completion].

(** Uses what is known about the values a method tests, as often as a
    test on one of them comes to the surface. *)
Tactic Notation "given" constr(H1) :=
  repeat (rewrite H1; cbn [negb]).
Tactic Notation "given" constr(H1) constr(H2) :=
  repeat (first [rewrite H1 | rewrite H2]; cbn [negb]).
Tactic Notation "given" constr(H1) constr(H2) constr(H3) :=
  repeat (first [rewrite H1 | rewrite H2 | rewrite H3]; cbn [negb]).
Tactic Notation "given" constr(H1) constr(H2) constr(H3) constr(H4) :=
  repeat (first [rewrite H1 | rewrite H2 | rewrite H3 | rewrite H4];
          cbn [negb]).
Tactic Notation "given" constr(H1) constr(H2) constr(H3) constr(H4) constr(H5) :=
  repeat (first [rewrite H1 | rewrite H2 | rewrite H3 | rewrite H4 | rewrite H5];
          cbn [negb]).

End Steps.

(** * Properties *)

(** ** Dictionaries, arrays and the fan-out loop *)

Module JsFacts.

Import JsObject.

Lemma get_set_same {V} (o : Obj V) k v : get (set o k v) k = Some v.
Proof.
  induction o as [|[k' v'] rest IH]; simpl.
  - by rewrite String.eqb_refl.
  - destruct (String.eqb k' k) eqn:Hk; simpl.
    + by rewrite String.eqb_refl.
    + by rewrite Hk.
Qed.

Lemma has_set_same {V} (o : Obj V) k v : has (set o k v) k = true.
Proof. unfold has. by rewrite get_set_same. Qed.

Lemma has_truthy_at {V} (o : Obj V) k : has o k = true -> truthy_at o k = true.
Proof. unfold truthy_at. by intros ->. Qed.

Lemma inherited_truthy_at {V} (o : Obj V) k :
  inherited k = true -> truthy_at o k = true.
Proof. unfold truthy_at. intros ->. apply orb_true_r. Qed.

Lemma truthy_at_false {V} (o : Obj V) k :
  truthy_at o k = false <-> has o k = false /\ inherited k = false.
Proof. unfold truthy_at. apply orb_false_iff. Qed.

Lemma get_set_other {V} (o : Obj V) k k' v :
  k <> k' -> get (set o k v) k' = get o k'.
Proof.
  intros Hne. induction o as [|[k0 v0] rest IH]; simpl.
  - destruct (String.eqb_spec k k'); congruence.
  - destruct (String.eqb_spec k0 k) as [->|Hk0]; simpl.
    + destruct (String.eqb_spec k k'); congruence.
    + destruct (String.eqb_spec k0 k'); congruence.
Qed.

Import Underscore.

Lemma index_from_None {A} `{EqDecision A} (l : list A) (x : A) i :
  index_from i l x = None <-> x ∉ l.
Proof.
  revert i. induction l as [|y l IH]; intros i; simpl.
  - split; [intros _; apply not_elem_of_nil | done].
  - destruct (decide (y = x)) as [->|Hne].
    + split; [done | intros Hx; destruct Hx; left].
    + rewrite IH. rewrite not_elem_of_cons. intuition congruence.
Qed.

Lemma indexOf_None {A} `{EqDecision A} (l : list A) (x : A) :
  indexOf (Some l) x = None <-> x ∉ l.
Proof. apply index_from_None. Qed.

Lemma indexOf_absent {A} `{EqDecision A} (x : A) : indexOf None x = None.
Proof. reflexivity. Qed.

Import Fsm.

Lemma fan_out_from {Arguments} (l : list MethodCallbackType)
    (arguments : Arguments) remaining i :
  remaining + i = length l ->
  fan_out l arguments remaining i
  = (fun func => Apply func arguments) <$> drop i l.
Proof.
  revert i. induction remaining as [|n IH]; intros i Hlen; simpl.
  - rewrite drop_ge; [done | lia].
  - destruct (lookup_lt_is_Some_2 l i) as [func Hfunc]; [lia|].
    rewrite Hfunc. rewrite (drop_S _ _ _ Hfunc). simpl.
    f_equal. apply IH. lia.
Qed.

Lemma buildHandlerInClosure_present {Arguments}
    (context : gmap string (list MethodCallbackType)) key l
    (arguments : Arguments) :
  context !! key = Some l ->
  buildHandlerInClosure context key arguments
  = (fun func => Apply func arguments) <$> l.
Proof.
  intros Hl. unfold buildHandlerInClosure. rewrite Hl.
  rewrite fan_out_from; [by rewrite drop_0 | lia].
Qed.

End JsFacts.

(** ** The stage invariant *)

Module Stage.

Import JsString JsObject Underscore Fsm JsFacts Steps.

Section WithEngine.
Context {E : Type} `{UnderlyImpl E}.
Implicit Type this : FiniteStateMachine E.

Lemma invariant_ctor : stage_invariant (@ctor E).
Proof.
  split; unfold enter_list, leave_list; simpl;
    rewrite ?lookup_empty; simpl; try done;
    split; intros [? ?]; done.
Qed.

Lemma invariant_same_stage this this' :
  (is_Some (_impl this') <-> is_Some (_impl this)) ->
  _handlers this' !! "onEnterState" = _handlers this !! "onEnterState" ->
  _handlers this' !! "onLeaveState" = _handlers this !! "onLeaveState" ->
  stage_invariant this -> stage_invariant this'.
Proof.
  intros Hi He Hl [I1 I2 I3 I4].
  split; unfold enter_list, leave_list in *; rewrite ?He, ?Hl, ?Hi; done.
Qed.

Lemma invariant_other_key this key array :
  key <> "onEnterState" -> key <> "onLeaveState" ->
  stage_invariant this -> stage_invariant (set_handler key array this).
Proof.
  intros Hne1 Hne2. apply invariant_same_stage; simpl; [done | |];
    by rewrite lookup_insert_ne.
Qed.

Lemma invariant_push_enter this array handler :
  enter_list this = Some array -> handler ∉ array ->
  stage_invariant this ->
  stage_invariant (set_handler "onEnterState" (array ++ [handler]) this).
Proof.
  intros Harray Hfresh [I1 I2 I3 I4].
  split; unfold enter_list, leave_list in *; simpl.
  - rewrite lookup_insert_eq, <- I1, Harray. split; eauto.
  - by rewrite lookup_insert_ne.
  - rewrite lookup_insert_eq. simpl. rewrite Harray in I3. simpl in I3.
    apply NoDup_app. split; [done|]. split.
    + intros x Hx Hx'. apply list_elem_of_singleton in Hx'. by subst.
    + apply NoDup_singleton.
  - by rewrite lookup_insert_ne.
Qed.

Lemma invariant_push_leave this array handler :
  leave_list this = Some array -> handler ∉ array ->
  stage_invariant this ->
  stage_invariant (set_handler "onLeaveState" (array ++ [handler]) this).
Proof.
  intros Harray Hfresh [I1 I2 I3 I4].
  split; unfold enter_list, leave_list in *; simpl.
  - by rewrite lookup_insert_ne.
  - rewrite lookup_insert_eq, <- I2, Harray. split; eauto.
  - by rewrite lookup_insert_ne.
  - rewrite lookup_insert_eq. simpl. rewrite Harray in I4. simpl in I4.
    apply NoDup_app. split; [done|]. split.
    + intros x Hx Hx'. apply list_elem_of_singleton in Hx'. by subst.
    + apply NoDup_singleton.
Qed.

Lemma invariant_serve request this :
  stage_invariant this -> stage_invariant (serve request this).
Proof.
  intros Hinv. destruct request; run.
  - (* addState *)
    repeat case_match; simplify_eq; try done.
    eapply invariant_same_stage; [..|exact Hinv]; done.
  - (* setInitState *)
    repeat case_match; simplify_eq; try done.
    eapply invariant_same_stage; [..|exact Hinv]; done.
  - (* addTransition *)
    repeat case_match; simplify_eq; try done.
    eapply invariant_same_stage; [..|exact Hinv]; done.
  - (* start *)
    repeat case_match; simplify_eq; try done.
    split; unfold enter_list, leave_list; simpl; simplify_map_eq; try done;
      try apply NoDup_nil_2; split; intros _; eauto.
  - (* onEnterState *)
    destruct (_handlers this !! "onEnterState") as [array|] eqn:Harray.
    + destruct (indexOf (Some array) handler) eqn:Hindex; [done|].
      apply invariant_push_enter; [done | by apply indexOf_None | done].
    + done.
  - (* onExitState *)
    destruct (_handlers this !! "onLeaveState") as [array|] eqn:Harray.
    + destruct (indexOf (Some array) handler) eqn:Hindex; [done|].
      apply invariant_push_leave; [done | by apply indexOf_None | done].
    + done.
  - (* offEnterState *)
    by apply invariant_other_key.
  - (* offExitState *)
    by apply invariant_other_key.
  - (* go *)
    repeat case_match; simplify_eq; try done.
    eapply invariant_same_stage; [..|exact Hinv]; try done.
  - (* addErrorHandler *)
    repeat case_match; simplify_eq; try done.
    eapply invariant_same_stage; [..|exact Hinv]; done.
  - (* current *)
    repeat case_match; simplify_eq; done.
Qed.

(** Every adapter a client can hold satisfies the stage invariant. *)
Lemma reachable_invariant this : reachable this -> stage_invariant this.
Proof.
  induction 1 as [|request this _ IH].
  - apply invariant_ctor.
  - by apply invariant_serve.
Qed.

Lemma script_reachable requests : reachable (E := E) (script requests).
Proof.
  unfold script. generalize (@reachable_ctor E _).
  generalize (@ctor E). induction requests as [|r rs IH]; intros this Hr; simpl.
  - done.
  - apply IH. by constructor.
Qed.

End WithEngine.

End Stage.

(** ** The reference engine meets the adapter's expectation *)

Module ReferenceFacts.

Import Fsm ReferenceEngine.

Lemma seek_named m transitionName t :
  seek m transitionName = Some t ->
  List.existsb (named transitionName) (transitions (m_options m)) = true.
Proof.
  unfold seek. intros Hfind. apply List.find_some in Hfind as [Hin Ht].
  apply List.existsb_exists. exists t. split; [done|].
  by apply andb_prop in Ht as [Hn _].
Qed.

Lemma reference_keyed_by_name : methods_keyed_by_name Machine.
Proof.
  intros m transitionName. simpl.
  destruct (seek m transitionName) as [t|] eqn:Hseek; [intros _ | done].
  rewrite (seek_named _ _ _ Hseek). eauto.
Qed.

End ReferenceFacts.

(** ** Transitions: [go] *)

Module Running.

Import JsString JsObject Fsm Steps JsFacts.

Section WithEngine.
Context {E : Type} `{UnderlyImpl E}.
Implicit Type this : FiniteStateMachine E.

Lemma go_not_started this to :
  _impl this = None ->
  go to this = {| calls := []; after := this;
                  completion := inl (Error "State machine has not yet started.") |}.
Proof. intros Himpl. run. by given Himpl. Qed.

Lemma go_undeclared this impl to :
  _impl this = Some impl -> truthy_at (_stateConfiguration this) to = false ->
  go to this = {| calls := []; after := this;
                  completion := inl (Error ("Go to undefined state: " +:+ to)) |}.
Proof. intros Himpl Hto. run. by given Himpl Hto. Qed.

Lemma go_current this impl to :
  _impl this = Some impl -> truthy_at (_stateConfiguration this) to = true ->
  impl_is impl to = true ->
  go to this = {| calls := [Is to]; after := this; completion := inr This |}.
Proof. intros Himpl Hto His. run. by given Himpl Hto His. Qed.

Lemma go_forbidden this impl to :
  _impl this = Some impl -> truthy_at (_stateConfiguration this) to = true ->
  impl_is impl to = false ->
  impl_cannot impl (key_from_current impl to) = true ->
  go to this
  = {| calls := [Is to; State; Cannot (key_from_current impl to)];
       after := this;
       completion := inl (Error ("Transition is not allowed: "
                                   +:+ impl_state impl +:+ " -> " +:+ to)) |}.
Proof.
  unfold key_from_current. intros Himpl Hto His Hcannot. run.
  by given Himpl Hto His Hcannot.
Qed.

Lemma go_without_method this impl to :
  _impl this = Some impl -> truthy_at (_stateConfiguration this) to = true ->
  impl_is impl to = false ->
  impl_cannot impl (key_from_current impl to) = false ->
  impl_member impl (key_from_current impl to) = None ->
  go to this
  = {| calls := [Is to; State; Cannot (key_from_current impl to);
                 Member (key_from_current impl to)];
       after := this;
       completion := inl (TypeError "call") |}.
Proof.
  unfold key_from_current. intros Himpl Hto His Hcannot Hmember. run.
  by given Himpl Hto His Hcannot Hmember.
Qed.

Lemma go_executed this impl to func :
  _impl this = Some impl -> truthy_at (_stateConfiguration this) to = true ->
  impl_is impl to = false ->
  impl_cannot impl (key_from_current impl to) = false ->
  impl_member impl (key_from_current impl to) = Some func ->
  go to this
  = {| calls := [Is to; State; Cannot (key_from_current impl to);
                 Member (key_from_current impl to);
                 Call (key_from_current impl to)];
       after := set_impl (Some (func impl)) this;
       completion := inr GlobalSelf |}.
Proof.
  unfold key_from_current. intros Himpl Hto His Hcannot Hmember. run.
  by given Himpl Hto His Hcannot Hmember.
Qed.

(** C4.  On a started adapter whose engine reports that it is already in
    the declared state [to], [go(to)] does nothing: it returns without
    raising, the only call on the engine is the is-current-state
    question (the transition-forbidden predicate is not consulted and no
    transition method is read or called), and the adapter, its engine
    and hence the current state are as before.  Nothing is assumed about
    the declared transitions, so this holds when no transition from
    [to] to itself exists. *)
Theorem go_to_current_state_is_noop this impl to :
  _impl this = Some impl ->
  has (_stateConfiguration this) to = true ->
  impl_is impl to = true ->
  completion (go to this) = inr This
  /\ calls (go to this) = [Is to]
  /\ after (go to this) = this
  /\ _impl (after (go to this)) = Some impl.
Proof.
  intros Himpl Hto His. apply has_truthy_at in Hto.
  rewrite (go_current this impl to) by done.
  by simpl.
Qed.

(** What [go(to)] raises on, as the code has it: the adapter has not
    started; or [stateConf[to]] reads falsy; or the engine is not in [to]
    and either forbids the transition or has no member under its key. *)
Lemma go_raises_exactly_when this to :
  (exists e, completion (go to this) = inl e) <->
  _impl this = None
  \/ truthy_at (_stateConfiguration this) to = false
  \/ exists impl,
       _impl this = Some impl /\ impl_is impl to = false
       /\ (impl_cannot impl (key_from_current impl to) = true
           \/ impl_member impl (key_from_current impl to) = None).
Proof.
  destruct (_impl this) as [impl|] eqn:Himpl.
  2:{ rewrite go_not_started by done. simpl. split; eauto. }
  destruct (truthy_at (_stateConfiguration this) to) eqn:Hto.
  2:{ rewrite (go_undeclared this impl) by done. simpl. split; eauto. }
  destruct (impl_is impl to) eqn:His.
  { rewrite (go_current this impl) by done. simpl. split.
    - intros [e He]. discriminate.
    - intros [?|[?|(impl' & ? & ? & ?)]]; simplify_eq; congruence. }
  destruct (impl_cannot impl (key_from_current impl to)) eqn:Hcannot.
  { rewrite (go_forbidden this impl) by done. simpl. split; [|eauto].
    intros _. right. right. exists impl. eauto. }
  destruct (impl_member impl (key_from_current impl to)) as [func|] eqn:Hmember.
  - rewrite (go_executed this impl to func) by done. simpl. split.
    + intros [e He]. discriminate.
    + intros [?|[?|(impl' & ? & ? & [?|?])]]; simplify_eq; congruence.
  - rewrite (go_without_method this impl to) by done. simpl. split; [|eauto].
    intros _. right. right. exists impl. eauto.
Qed.

(** On an engine that keeps the method of every permitted transition
    under the transition's name, and for a name that is not inherited,
    [go(to)] raises exactly on the three conditions of the spec. *)
Lemma go_raises_on_declared_names this to :
  methods_keyed_by_name E ->
  inherited to = false ->
  (exists e, completion (go to this) = inl e) <->
  _impl this = None
  \/ has (_stateConfiguration this) to = false
  \/ exists impl,
       _impl this = Some impl /\ impl_is impl to = false
       /\ impl_cannot impl (key_from_current impl to) = true.
Proof.
  intros Hkeyed Hown. rewrite go_raises_exactly_when.
  assert (truthy_at (_stateConfiguration this) to
          = has (_stateConfiguration this) to) as ->
    by (unfold truthy_at; rewrite Hown; apply orb_false_r).
  split.
  - intros [?|[?|(impl & Himpl & His & [Hcannot|Hmember])]];
      [by left | by right; left | right; right; by exists impl |].
    destruct (impl_cannot impl (key_from_current impl to)) eqn:Hcannot;
      [right; right; by exists impl|].
    destruct (Hkeyed _ _ Hcannot) as [func Hfunc]. congruence.
  - intros [?|[?|(impl & Himpl & His & Hcannot)]];
      [by left | by right; left |].
    right. right. exists impl. split_and!; [done | done | by left].
Qed.

(** C3.  [go(to)] does not raise for every undeclared [to]: a name that
    object literals inherit, such as constructor or toString, passes the
    declared-state test.  On a started adapter, for such a name that was
    never declared, [go] returns the adapter when the engine reports
    that name as its state, and otherwise goes on to question the
    engine; in no case does it raise the undefined-state error. *)
Theorem go_takes_inherited_names_for_states this impl to :
  _impl this = Some impl ->
  has (_stateConfiguration this) to = false ->
  inherited to = true ->
  (impl_is impl to = true ->
   go to this = {| calls := [Is to]; after := this; completion := inr This |})
  /\ (impl_is impl to = false ->
      exists rest,
        calls (go to this)
        = Is to :: State :: Cannot (key_from_current impl to) :: rest)
  /\ completion (go to this) <> inl (Error ("Go to undefined state: " +:+ to)).
Proof.
  intros Himpl _ Hto. apply (inherited_truthy_at (_stateConfiguration this)) in Hto.
  destruct (impl_is impl to) eqn:His.
  { rewrite (go_current this impl to) by done. split_and!; done. }
  destruct (impl_cannot impl (key_from_current impl to)) eqn:Hcannot.
  { rewrite (go_forbidden this impl to) by done. split_and!; [done | eauto |].
    cbn [completion]. intros Heq. injection Heq as Heq. discriminate Heq. }
  destruct (impl_member impl (key_from_current impl to)) as [func|] eqn:Hmember.
  - rewrite (go_executed this impl to func) by done. split_and!; [done | eauto | done].
  - rewrite (go_without_method this impl to) by done. split_and!; [done | eauto | done].
Qed.

(** Apart from [go], a chainable method that returns, returns [this]. *)
Lemma chainable_methods_return_this this request returned :
  match request with
  | AddState name onEnter onLeave =>
      completion (addState name onEnter onLeave this) = inr returned
  | SetInitState name => completion (setInitState name this) = inr returned
  | AddTransition from to onAfter onBefore =>
      completion (addTransition from to onAfter onBefore this) = inr returned
  | Start => completion (start this) = inr returned
  | OnEnterState handler => completion (onEnterState handler this) = inr returned
  | OnExitState handler => completion (onExitState handler this) = inr returned
  | OffEnterState handler => completion (offEnterState handler this) = inr returned
  | OffExitState handler => completion (offExitState handler this) = inr returned
  | AddErrorHandler fn => completion (addErrorHandler fn this) = inr returned
  | Go _ | Current => returned = This
  end ->
  returned = This.
Proof.
  destruct request; try done; run; repeat case_match; simplify_eq;
    cbn; intros; by simplify_eq.
Qed.

(** C9.  When [go(to)] executes a transition it returns the global
    [self], not the adapter: the other chainable methods, and [go] on
    its no-op path, return [this]. *)
Theorem go_executed_returns_global_self this impl to func :
  _impl this = Some impl ->
  has (_stateConfiguration this) to = true ->
  impl_is impl to = false ->
  impl_cannot impl (key_from_current impl to) = false ->
  impl_member impl (key_from_current impl to) = Some func ->
  completion (go to this) = inr GlobalSelf
  /\ completion (go to this) <> inr This.
Proof.
  intros Himpl Hto His Hcannot Hmember. apply has_truthy_at in Hto.
  rewrite (go_executed this impl to func) by done. done.
Qed.

End WithEngine.

End Running.

(** ** What the two loops of [start] collect *)

Module Handover.

Import JsString JsObject Fsm Steps JsFacts.
















Section WithEngine.
Context {E : Type} `{UnderlyImpl E}.
Implicit Type this : FiniteStateMachine E.



End WithEngine.

End Handover.

(** ** Configuration and [start] *)

Module Configuring.

Import JsString JsObject Fsm Steps JsFacts Handover.

Section WithEngine.
Context {E : Type} `{UnderlyImpl E}.
Implicit Type this : FiniteStateMachine E.

Lemma started_rejects_addState this impl name onEnter onLeave :
  _impl this = Some impl ->
  addState name onEnter onLeave this
  = {| calls := []; after := this;
       completion := inl (Error "State machine has started.") |}.
Proof. intros Himpl. run. by given Himpl. Qed.

Lemma addState_redefined this name onEnter onLeave :
  _impl this = None -> truthy_at (_stateConfiguration this) name = true ->
  addState name onEnter onLeave this
  = {| calls := []; after := this;
       completion := inl (Error ("Redefined state: " +:+ name)) |}.
Proof. intros Himpl Hname. run. by given Himpl Hname. Qed.

Lemma addState_recorded this name onEnter onLeave :
  _impl this = None -> truthy_at (_stateConfiguration this) name = false ->
  addState name onEnter onLeave this
  = {| calls := [];
       after := set_stateConfiguration
                  (set (_stateConfiguration this) name
                     {| onEnterCallback := onEnter;
                        onLeaveCallback := onLeave |}) this;
       completion := inr This |}.
Proof. intros Himpl Hname. run. by given Himpl Hname. Qed.

Lemma start_started this impl :
  _impl this = Some impl ->
  start this = {| calls := []; after := this;
                  completion := inl (Error "State machine has started.") |}.
Proof. intros Himpl. run. by given Himpl. Qed.

Lemma start_without_init this :
  _impl this = None -> when_truthy (_initState this) = None ->
  start this = {| calls := []; after := this;
                  completion := inl (Error "Init state has not been defined.") |}.
Proof. intros Himpl Hinit. run. by given Himpl Hinit. Qed.

Lemma start_runs this initState :
  _impl this = None -> when_truthy (_initState this) = Some initState ->
  start this
  = {| calls := [New (engine_options this initState)];
       after := set_impl (Some (impl_new (engine_options this initState)))
                  (set_handler "onLeaveState" []
                     (set_handler "onEnterState" [] this));
       completion := inr This |}.
Proof. intros Himpl Hinit. run. by given Himpl Hinit. Qed.


Lemma engine_options_init this initState :
  init (engine_options this initState) = initState.
Proof. unfold engine_options. by case_match. Qed.




(** What [addState(name, ...)] raises on, as the code has it: the adapter
    has started, or [stateConf[name]] reads truthy, which it does for a
    declared name and for an inherited one. *)
Lemma addState_raises_exactly_when this name onEnter onLeave :
  (exists e, completion (addState name onEnter onLeave this) = inl e) <->
  is_Some (_impl this)
  \/ has (_stateConfiguration this) name = true
  \/ inherited name = true.
Proof.
  destruct (_impl this) as [impl|] eqn:Himpl.
  { rewrite (started_rejects_addState this impl) by done. project.
    split; eauto. }
  destruct (truthy_at (_stateConfiguration this) name) eqn:Hname.
  - rewrite addState_redefined by done. project. split; [|eauto].
    intros _. right. by apply orb_true_iff in Hname.
  - rewrite addState_recorded by done. project.
    apply truthy_at_false in Hname as [Hown Hinherited]. split.
    + intros [e He]. discriminate.
    + intros [[? ?]|[?|?]]; congruence.
Qed.

(** For a name that object literals do not inherit, [addState] is as the
    spec has it: it raises exactly when the adapter has started or the
    name is declared; otherwise the specification is recorded under the
    name, a second [addState] of the name raises the redefinition error,
    and after a successful [start()] every [addState] raises the stage
    error. *)
Lemma addState_on_own_names this name onEnter onLeave :
  inherited name = false ->
  ((exists e, completion (addState name onEnter onLeave this) = inl e) <->
     is_Some (_impl this) \/ has (_stateConfiguration this) name = true)
  /\ (_impl this = None ->
      has (_stateConfiguration this) name = false ->
      completion (addState name onEnter onLeave this) = inr This
      /\ get (_stateConfiguration (after (addState name onEnter onLeave this))) name
         = Some {| onEnterCallback := onEnter; onLeaveCallback := onLeave |}
      /\ forall onEnter' onLeave',
           completion (addState name onEnter' onLeave'
                         (after (addState name onEnter onLeave this)))
           = inl (Error ("Redefined state: " +:+ name)))
  /\ (completion (start this) = inr This ->
      completion (addState name onEnter onLeave (after (start this)))
      = inl (Error "State machine has started.")).
Proof.
  intros Hown. split; [|split].
  - rewrite addState_raises_exactly_when. rewrite Hown.
    split; [intros [?|[?|?]]; eauto; discriminate | intros [?|?]; eauto].
  - intros Himpl Hname.
    assert (truthy_at (_stateConfiguration this) name = false) as Hfalsy
      by (by apply truthy_at_false).
    rewrite addState_recorded by done. project.
    split; [done|]. split; [apply get_set_same|].
    intros onEnter' onLeave'. rewrite addState_redefined; [done|done|].
    apply has_truthy_at, has_set_same.
  - destruct (_impl this) as [impl|] eqn:Himpl.
    { rewrite (start_started this impl) by done. discriminate. }
    destruct (when_truthy (_initState this)) as [initState|] eqn:Hinit.
    2:{ rewrite start_without_init by done. discriminate. }
    intros _. rewrite (start_runs this initState) by done. project.
    by erewrite started_rejects_addState.
Qed.

(** C6.  [addState(name, ...)] also raises for a name that was never
    declared: on an adapter that has not started, a name that object
    literals inherit, such as constructor or toString, is refused with the
    redefinition error although no state of that name exists, and the
    adapter is left as it was. *)
Theorem addState_refuses_inherited_names this name onEnter onLeave :
  _impl this = None ->
  has (_stateConfiguration this) name = false ->
  inherited name = true ->
  addState name onEnter onLeave this
  = {| calls := []; after := this;
       completion := inl (Error ("Redefined state: " +:+ name)) |}.
Proof.
  intros Himpl _ Hname. apply addState_redefined; [done|].
  by apply inherited_truthy_at.
Qed.




Lemma setInitState_sets this name :
  _impl this = None -> when_truthy (_initState this) = None ->
  setInitState name this
  = {| calls := []; after := set_initState (Some name) this;
       completion := inr This |}.
Proof. intros Himpl Hinit. run. by given Himpl Hinit. Qed.

(** C10.  The init state is not checked against the declared states.
    On an adapter that has not started and has no init state,
    [setInitState(name)] succeeds for a name that was never declared,
    and the following [start()] hands that name to the engine as its
    init state.  [start()] then raises only for the empty name, with the
    missing-init-state error: it raises no undefined-reference error. *)
Theorem init_state_is_not_validated this name :
  _impl this = None ->
  when_truthy (_initState this) = None ->
  has (_stateConfiguration this) name = false ->
  completion (setInitState name this) = inr This
  /\ _initState (after (setInitState name this)) = Some name
  /\ (truthy name = true ->
      completion (start (after (setInitState name this))) = inr This
      /\ exists options,
           calls (start (after (setInitState name this))) = [New options]
           /\ init options = name)
  /\ (forall e,
        completion (start (after (setInitState name this))) = inl e ->
        e = Error "Init state has not been defined." /\ truthy name = false).
Proof.
  intros Himpl Hinit _. rewrite setInitState_sets by done. project.
  split; [done|]. split; [done|].
  destruct (truthy name) eqn:Hname.
  - assert (when_truthy (_initState (set_initState (Some name) this)) = Some name)
      as Hset by (simpl; by rewrite Hname).
    rewrite (start_runs _ name) by done. project. split.
    + intros _. split; [done|]. eexists. split; [done|].
      apply engine_options_init.
    + intros e He. discriminate.
  - assert (when_truthy (_initState (set_initState (Some name) this)) = None)
      as Hset by (simpl; by rewrite Hname).
    rewrite start_without_init by done. project. split; [done|].
    intros e He. by simplify_eq.
Qed.

(** The round of the first loop for a transition with an onBefore
    callback stores, under the onBefore name, what the onAfter slot holds. *)
Lemma collect_transition_onBefore acc k1 elem1 before :
  onBeforeCallback elem1 = Some before ->
  snd (collect_transition acc (k1, elem1)) !! ("onBefore" +:+ captialize k1)
  = Some (Reference (onAfterCallback elem1)).
Proof.
  intros Hbefore. destruct acc as [ts ms]. unfold collect_transition.
  rewrite Hbefore. cbn [snd]. apply lookup_insert_eq.
Qed.

(** C2.  In the map that [start()] hands to the engine, the method under
    onBefore + capitalised key of the transition from n1 to n2 is NOT
    that transition's onBefore callback [b]: it is the transition's
    onAfter callback, that is [a] when one was given and [undefined]
    when none was. *)
Theorem onBefore_method_is_the_onAfter_callback (a b : MethodCallbackType) :
  let declare onAfter :=
    script (E := E)
      [AddState "n1" None None; AddState "n2" None None;
       AddTransition "n1" "n2" onAfter (Some b); SetInitState "n1"] in
  calls (start (declare (Some a))) = [New (engine_options (declare (Some a)) "n1")]
  /\ methods (engine_options (declare (Some a)) "n1") !! "onBeforeN12n2"
     = Some (Reference (Some a))
  /\ calls (start (declare None)) = [New (engine_options (declare None) "n1")]
  /\ methods (engine_options (declare None) "n1") !! "onBeforeN12n2"
     = Some (Reference None).
Proof. repeat split; vm_compute; reflexivity. Qed.

End WithEngine.

End Configuring.

(** ** Handler lists *)

Module Handlers.

Import JsString JsObject Underscore Fsm Steps Stage JsFacts.

Section WithEngine.
Context {E : Type} `{UnderlyImpl E}.
Implicit Type this : FiniteStateMachine E.

Lemma onEnterState_absent this handler :
  enter_list this = None ->
  onEnterState handler this
  = {| calls := []; after := this; completion := inl (TypeError "push") |}.
Proof. unfold enter_list. intros Hlist. run. by given Hlist. Qed.

Lemma onExitState_absent this handler :
  leave_list this = None ->
  onExitState handler this
  = {| calls := []; after := this; completion := inl (TypeError "push") |}.
Proof. unfold leave_list. intros Hlist. run. by given Hlist. Qed.

Lemma onEnterState_registered this array handler :
  enter_list this = Some array -> handler ∈ array ->
  onEnterState handler this
  = {| calls := []; after := this;
       completion := inl (Error "Re-registering a hander!") |}.
Proof.
  unfold enter_list. intros Hlist Hin. run. rewrite Hlist.
  destruct (indexOf (Some array) handler) eqn:Hindex; [done|].
  by apply indexOf_None in Hindex.
Qed.

Lemma onExitState_registered this array handler :
  leave_list this = Some array -> handler ∈ array ->
  onExitState handler this
  = {| calls := []; after := this;
       completion := inl (Error "Registering a hander!") |}.
Proof.
  unfold leave_list. intros Hlist Hin. run. rewrite Hlist.
  destruct (indexOf (Some array) handler) eqn:Hindex; [done|].
  by apply indexOf_None in Hindex.
Qed.

Lemma onEnterState_fresh this array handler :
  enter_list this = Some array -> handler ∉ array ->
  onEnterState handler this
  = {| calls := [];
       after := set_handler "onEnterState" (array ++ [handler]) this;
       completion := inr This |}.
Proof.
  unfold enter_list. intros Hlist Hfresh. run. rewrite Hlist.
  apply indexOf_None in Hfresh. by rewrite Hfresh.
Qed.

Lemma onExitState_fresh this array handler :
  leave_list this = Some array -> handler ∉ array ->
  onExitState handler this
  = {| calls := [];
       after := set_handler "onLeaveState" (array ++ [handler]) this;
       completion := inr This |}.
Proof.
  unfold leave_list. intros Hlist Hfresh. run. rewrite Hlist.
  apply indexOf_None in Hfresh. by rewrite Hfresh.
Qed.

Lemma offEnterState_run this handler :
  offEnterState handler this
  = {| calls := [];
       after := set_handler "onenterstate"
                  (without (enter_list this) handler) this;
       completion := inr This |}.
Proof. reflexivity. Qed.

Lemma offExitState_run this handler :
  offExitState handler this
  = {| calls := [];
       after := set_handler "onexitstate"
                  (without (leave_list this) handler) this;
       completion := inr This |}.
Proof. reflexivity. Qed.

Lemma enter_list_after_off this handler :
  enter_list (after (offEnterState handler this)) = enter_list this.
Proof.
  rewrite offEnterState_run. unfold enter_list. simpl.
  by rewrite lookup_insert_ne.
Qed.

Lemma leave_list_after_off this handler :
  leave_list (after (offExitState handler this)) = leave_list this.
Proof.
  rewrite offExitState_run. unfold leave_list. simpl.
  by rewrite lookup_insert_ne.
Qed.

(** After [onEnterState(handler)], returned or thrown, the handler is in
    the list whenever the list exists. *)
Lemma enter_list_after_on this array handler :
  enter_list this = Some array ->
  exists array', enter_list (after (onEnterState handler this)) = Some array'
                 /\ handler ∈ array'.
Proof.
  intros Hlist. destruct (decide (handler ∈ array)) as [Hin|Hfresh].
  - rewrite (onEnterState_registered this array) by done. eauto.
  - rewrite (onEnterState_fresh this array) by done.
    exists (array ++ [handler])%list. unfold enter_list. simpl.
    rewrite lookup_insert_eq. split; [done|]. set_solver.
Qed.

Lemma leave_list_after_on this array handler :
  leave_list this = Some array ->
  exists array', leave_list (after (onExitState handler this)) = Some array'
                 /\ handler ∈ array'.
Proof.
  intros Hlist. destruct (decide (handler ∈ array)) as [Hin|Hfresh].
  - rewrite (onExitState_registered this array) by done. eauto.
  - rewrite (onExitState_fresh this array) by done.
    exists (array ++ [handler])%list. unfold leave_list. simpl.
    rewrite lookup_insert_eq. split; [done|]. set_solver.
Qed.

(** C1.  On a started adapter, [offEnterState(h)] returns but leaves the
    enter-state list as it was (the filtered array is stored under the
    key onenterstate, which nothing reads), so in the sequence
    [onEnterState(h); offEnterState(h); onEnterState(h)] the second
    registration raises the re-registration error.  The same holds for
    [onExitState] and [offExitState]. *)
Theorem off_leaves_handler_registered this handler :
  reachable this -> is_Some (_impl this) ->
  (completion (offEnterState handler (after (onEnterState handler this)))
   = inr This
   /\ enter_list (after (offEnterState handler
                           (after (onEnterState handler this))))
      = enter_list (after (onEnterState handler this))
   /\ completion (onEnterState handler
                    (after (offEnterState handler
                              (after (onEnterState handler this)))))
      = inl (Error "Re-registering a hander!"))
  /\ (completion (offExitState handler (after (onExitState handler this)))
      = inr This
      /\ leave_list (after (offExitState handler
                              (after (onExitState handler this))))
         = leave_list (after (onExitState handler this))
      /\ completion (onExitState handler
                       (after (offExitState handler
                                 (after (onExitState handler this)))))
         = inl (Error "Registering a hander!")).
Proof.
  intros Hreach Hstarted.
  destruct (reachable_invariant this Hreach) as [Henter Hleave _ _].
  apply Henter in Hstarted as Hlist. destruct Hlist as [array Harray].
  apply Hleave in Hstarted as Hlist. destruct Hlist as [array' Harray'].
  split.
  - split; [done|]. split; [apply enter_list_after_off|].
    destruct (enter_list_after_on this array handler Harray)
      as (registered & Hlist & Hin).
    erewrite onEnterState_registered; [done| |exact Hin].
    by rewrite enter_list_after_off.
  - split; [done|]. split; [apply leave_list_after_off|].
    destruct (leave_list_after_on this array' handler Harray')
      as (registered & Hlist & Hin).
    erewrite onExitState_registered; [done| |exact Hin].
    by rewrite leave_list_after_off.
Qed.

(** C7.  Registration is not guarded by the stage test.  Before
    [start()] has succeeded, on every adapter a client can hold,
    [onEnterState(h)] and [onExitState(h)] do fail at once and change
    nothing, but not with the adapter's stage error: the list they push
    onto does not exist yet, and the failure is the runtime's TypeError
    for reading push of undefined.  On the same adapter [go] and
    [current], which call [ensureRunningStage], raise the stage error
    with its message. *)
Theorem registration_before_start_is_unguarded this handler :
  reachable this -> _impl this = None ->
  onEnterState handler this
  = {| calls := []; after := this; completion := inl (TypeError "push") |}
  /\ onExitState handler this
     = {| calls := []; after := this; completion := inl (TypeError "push") |}
  /\ (forall message,
        completion (onEnterState handler this) <> inl (Error message)
        /\ completion (onExitState handler this) <> inl (Error message))
  /\ (forall to,
        completion (go to this)
        = inl (Error "State machine has not yet started."))
  /\ completion (current this)
     = inl (Error "State machine has not yet started.").
Proof.
  intros Hreach Himpl.
  destruct (reachable_invariant this Hreach) as [Henter Hleave _ _].
  rewrite Himpl in Henter, Hleave.
  assert (enter_list this = None) as Hentering.
  { apply eq_None_not_Some. intros Hsome. apply Henter in Hsome. by destruct Hsome. }
  assert (leave_list this = None) as Hleaving.
  { apply eq_None_not_Some. intros Hsome. apply Hleave in Hsome. by destruct Hsome. }
  rewrite onEnterState_absent, onExitState_absent by done.
  split_and!; [done | done | by intros message | |].
  - intros to. run. by given Himpl.
  - run. by given Himpl.
Qed.

(** C8.  The closure built for a handler list invokes the callbacks that
    the list holds when the closure runs: one invocation per entry, from
    index 0 upwards, each with the closure's own arguments; an absent
    list gives no invocation.  On an adapter a client can hold the two
    lists have no repeated entry, so every registered callback is
    invoked exactly once, and a callback registered later is invoked
    after the ones registered before it. *)
Theorem fan_out_in_registration_order {Arguments}
    (context : gmap string (list MethodCallbackType)) (key : string)
    (arguments : Arguments) :
  (forall ourHandlers,
     context !! key = Some ourHandlers ->
     buildHandlerInClosure context key arguments
     = (fun func => Apply func arguments) <$> ourHandlers)
  /\ (context !! key = None ->
      buildHandlerInClosure context key arguments = [])
  /\ (forall this ourHandlers,
        reachable this ->
        key = "onEnterState" \/ key = "onLeaveState" ->
        _handlers this !! key = Some ourHandlers ->
        NoDup (run_closure this key arguments)
        /\ forall func, func ∈ ourHandlers <->
                        Apply func arguments ∈ run_closure this key arguments)
  /\ (forall this ourHandlers handler,
        enter_list this = Some ourHandlers ->
        completion (onEnterState handler this) = inr This ->
        run_closure (after (onEnterState handler this)) "onEnterState" arguments
        = (run_closure this "onEnterState" arguments
             ++ [Apply handler arguments])%list).
Proof.
  split_and!.
  - intros ourHandlers. apply buildHandlerInClosure_present.
  - intros Habsent. unfold buildHandlerInClosure. by rewrite Habsent.
  - intros this ourHandlers Hreach Hkey Hlist.
    unfold run_closure.
    rewrite (buildHandlerInClosure_present _ _ _ _ Hlist).
    destruct (reachable_invariant this Hreach) as [_ _ Henter Hleave].
    assert (NoDup ourHandlers) as Hnodup.
    { destruct Hkey as [-> | ->].
      - unfold enter_list in Henter. by rewrite Hlist in Henter.
      - unfold leave_list in Hleave. by rewrite Hlist in Hleave. }
    assert (Inj (=) (=) (fun func => @Apply Arguments func arguments))
      as Hinj by (intros f g Hfg; by injection Hfg).
    split.
    + by apply (NoDup_fmap_2 _).
    + intros func. split.
      * intros Hin. by apply (list_elem_of_fmap_2 (fun f => Apply f arguments)).
      * intros Hin. apply list_elem_of_fmap in Hin as (g & Hg & Hin).
        by simplify_eq.
  - intros this ourHandlers handler Hlist Hok.
    destruct (decide (handler ∈ ourHandlers)) as [Hin|Hfresh].
    { rewrite (onEnterState_registered this ourHandlers) in Hok by done.
      discriminate. }
    rewrite (onEnterState_fresh this ourHandlers) by done.
    unfold run_closure. project. unfold enter_list in Hlist.
    rewrite (buildHandlerInClosure_present _ _ _ _ Hlist).
    erewrite buildHandlerInClosure_present.
    2:{ simpl. apply lookup_insert_eq. }
    by rewrite fmap_app.
Qed.

End WithEngine.

End Handlers.

(** ** The scenario of the spec, on the reference engine *)

Module Scenario.

Import JsString JsObject Fsm ReferenceEngine ReferenceFacts Stage.
Import Running Configuring Handlers.

Lemma started_impl : _impl started = Some started_engine.
Proof. vm_compute. reflexivity. Qed.

(** The helpers on the names of the scenario. *)

Example captialize_key : captialize "n12n2" = "N12n2".
Proof. reflexivity. Qed.

Example captialize_empty : captialize EmptyString = EmptyString.
Proof. reflexivity. Qed.

Example key_of_the_transition : replaceStr transitionKeyFormat "n1" "n2" = "n12n2".
Proof. reflexivity. Qed.

Example for_in_visits_indices_first :
  List.map fst (for_in [("b", 1); ("10", 2); ("2", 3); ("a", 4); ("01", 5)])
  = ["2"; "10"; "b"; "a"; "01"].
Proof. reflexivity. Qed.

(** The testable properties of the spec. *)

Example same_state_twice_fails :
  completion (addState "n1" None None (script (E := Machine) [AddState "n1" None None]))
  = inl (Error "Redefined state: n1").
Proof. reflexivity. Qed.

Example start_without_init_fails :
  completion (start (script (E := Machine) [AddState "n1" None None]))
  = inl (Error "Init state has not been defined.").
Proof. reflexivity. Qed.

Example addState_after_start_fails :
  completion (addState "n3" None None started)
  = inl (Error "State machine has started.").
Proof. vm_compute. reflexivity. Qed.

Example go_to_undeclared_fails :
  completion (go "n3" started) = inl (Error "Go to undefined state: n3").
Proof. vm_compute. reflexivity. Qed.

Example go_without_transition_fails :
  completion (go "n1" moved) = inl (Error "Transition is not allowed: n2 -> n1").
Proof. vm_compute. reflexivity. Qed.

Example same_handler_twice_fails :
  completion (onEnterState 7 (serve (OnEnterState 7) started))
  = inl (Error "Re-registering a hander!").
Proof. vm_compute. reflexivity. Qed.

Example end_to_end :
  completion (current moved) = inr "n2"
  /\ methods (engine_options ready "n1") !! "onAfterN12n2" = Some (Reference (Some 1)).
Proof. split; vm_compute; reflexivity. Qed.

(** Unlike registration, removal before [start()] returns. *)
Example off_before_start_returns :
  completion (offEnterState 7 ready) = inr This
  /\ completion (offExitState 7 ready) = inr This.
Proof. split; reflexivity. Qed.

Lemma go_to_current_state_is_noop_witness :
  completion (go "n1" started) = inr This
  /\ calls (go "n1" started) = [Is "n1"]
  /\ after (go "n1" started) = started
  /\ _impl (after (go "n1" started)) = Some started_engine.
Proof.
  apply (go_to_current_state_is_noop started started_engine "n1");
    vm_compute; reflexivity.
Defined.

Lemma go_takes_inherited_names_for_states_witness :
  go "constructor" unconfigured
  = {| calls := [Is "constructor"]; after := unconfigured; completion := inr This |}
  /\ (exists rest,
        calls (go "toString" unconfigured)
        = Is "toString" :: State :: Cannot "constructor2toString" :: rest)
  /\ completion (go "toString" unconfigured)
     <> inl (Error "Go to undefined state: toString").
Proof.
  destruct (go_takes_inherited_names_for_states unconfigured unconfigured_engine
              "constructor") as (Hcurrent & _ & _);
    [vm_compute; reflexivity | reflexivity | reflexivity |].
  destruct (go_takes_inherited_names_for_states unconfigured unconfigured_engine
              "toString") as (_ & Hasked & Hpassed);
    [vm_compute; reflexivity | reflexivity | reflexivity |].
  split_and!.
  - apply Hcurrent. reflexivity.
  - apply Hasked. reflexivity.
  - exact Hpassed.
Defined.

Lemma go_executed_returns_global_self_witness :
  completion (go "n2" started) = inr GlobalSelf
  /\ completion (go "n2" started) <> inr This.
Proof.
  apply (go_executed_returns_global_self started started_engine "n2"
           (fire "n12n2")); vm_compute; reflexivity.
Defined.

Lemma addState_refuses_inherited_names_witness :
  addState "constructor" None None (@ctor Machine)
  = {| calls := []; after := ctor;
       completion := inl (Error "Redefined state: constructor") |}.
Proof.
  apply (addState_refuses_inherited_names (@ctor Machine) "constructor" None None);
    reflexivity.
Defined.






Lemma init_state_is_not_validated_witness :
  completion (setInitState "nowhere" (@ctor Machine)) = inr This
  /\ completion (start (after (setInitState "nowhere" (@ctor Machine)))) = inr This.
Proof.
  destruct (init_state_is_not_validated (@ctor Machine) "nowhere")
    as (Hset & _ & Hstart & _); [reflexivity | reflexivity | reflexivity |].
  split; [exact Hset|]. apply Hstart. reflexivity.
Defined.

Lemma off_leaves_handler_registered_witness :
  completion (onEnterState 7 (after (offEnterState 7 (after (onEnterState 7 started)))))
  = inl (Error "Re-registering a hander!")
  /\ completion (onExitState 7 (after (offExitState 7 (after (onExitState 7 started)))))
     = inl (Error "Registering a hander!").
Proof.
  destruct (off_leaves_handler_registered started 7)
    as ((_ & _ & Henter) & (_ & _ & Hleave)).
  - apply script_reachable.
  - rewrite started_impl. eexists. reflexivity.
  - split; assumption.
Defined.

Lemma registration_before_start_is_unguarded_witness :
  onEnterState 7 ready
  = {| calls := []; after := ready; completion := inl (TypeError "push") |}
  /\ onExitState 7 ready
     = {| calls := []; after := ready; completion := inl (TypeError "push") |}
  /\ completion (onEnterState 7 ready)
     <> inl (Error "State machine has not yet started.")
  /\ completion (go "n2" ready) = inl (Error "State machine has not yet started.")
  /\ completion (current ready) = inl (Error "State machine has not yet started.").
Proof.
  destruct (registration_before_start_is_unguarded ready 7)
    as (Henter & Hexit & Hmessage & Hgo & Hcurrent).
  - apply script_reachable.
  - vm_compute. reflexivity.
  - split_and!; [exact Henter | exact Hexit | apply Hmessage | apply Hgo
                | exact Hcurrent].
Defined.

Lemma fan_out_in_registration_order_witness :
  buildHandlerInClosure (_handlers listening) "onEnterState" "entered"
  = [Apply 7 "entered"; Apply 8 "entered"]
  /\ buildHandlerInClosure (_handlers ready) "onEnterState" "entered" = []
  /\ NoDup (run_closure listening "onEnterState" "entered")
  /\ run_closure (after (onEnterState 9 listening)) "onEnterState" "entered"
     = (run_closure listening "onEnterState" "entered" ++ [Apply 9 "entered"])%list.
Proof.
  destruct (fan_out_in_registration_order (E := Machine)
              (_handlers listening) "onEnterState" "entered")
    as (Hpresent & _ & Honce & Horder).
  destruct (fan_out_in_registration_order (E := Machine)
              (_handlers ready) "onEnterState" "entered")
    as (_ & Habsent & _).
  split_and!.
  - apply (Hpresent [7; 8]). vm_compute. reflexivity.
  - apply Habsent. vm_compute. reflexivity.
  - apply (Honce listening [7; 8]).
    + apply script_reachable.
    + left. reflexivity.
    + vm_compute. reflexivity.
  - apply (Horder listening [7; 8] 9); vm_compute; reflexivity.
Defined.

End Scenario.
